(** * A shallow embedding of the products REST API

    The development follows [src/router.ts] (the route table of the product
    resource) and the server assembly (CORS origin check, database
    connection, mounting of the router).  Express, the [cors] package,
    express-validator and the ORM are external collaborators; the small part
    of their behaviour the routes rely on is written out below and marked
    as such. *)

From Stdlib Require Import ZArith QArith String Ascii List Bool Lia DecimalString.
From stdpp Require Import base option list strings gmap.

Local Open Scope string_scope.
Local Open Scope list_scope.

(** ** JavaScript values carried by a request *)

(** A JavaScript number: a finite value, an infinity or NaN.  Finite values
    are rationals; rounding to binary64 is not represented. *)
Inductive JSNumber : Type :=
  | NaN
  | PosInf
  | NegInf
  | Fin (q : Q).

(** The values a parsed JSON body field or a path parameter can hold;
    [JUndefined] is a field that is missing. *)
#[local] Unset Elimination Schemes.
Inductive JValue : Type :=
  | JUndefined
  | JNull
  | JBool (b : bool)
  | JNum (n : JSNumber)
  | JStr (s : string)
  | JArr (items : list JValue)
  | JObj (fields : list (string * JValue)).
#[local] Set Elimination Schemes.

Definition Qltb (a b : Q) : bool :=
  (Qnum a * Zpos (Qden b) <? Qnum b * Zpos (Qden a))%Z.

Definition Qleb (a b : Q) : bool :=
  (Qnum a * Zpos (Qden b) <=? Qnum b * Zpos (Qden a))%Z.

(** [x < y] on numbers: false as soon as one side is NaN. *)
Definition JSNumber_lt (x y : JSNumber) : bool :=
  match x, y with
  | NaN, _ | _, NaN => false
  | Fin a, Fin b => Qltb a b
  | NegInf, NegInf => false
  | NegInf, _ => true
  | PosInf, _ => false
  | Fin _, PosInf => true
  | Fin _, NegInf => false
  end.

(** [x <= y] on numbers: false as soon as one side is NaN. *)
Definition JSNumber_le (x y : JSNumber) : bool :=
  match x, y with
  | NaN, _ | _, NaN => false
  | Fin a, Fin b => Qleb a b
  | NegInf, _ => true
  | PosInf, PosInf => true
  | PosInf, _ => false
  | Fin _, PosInf => true
  | Fin _, NegInf => false
  end.

Definition zero : JSNumber := Fin 0.

(** JavaScript's [ToString], given the string of a number and of an
    object; an array is the join of its elements. *)
Fixpoint JSToString_with (num : JSNumber -> string)
    (obj : list (string * JValue) -> string) (v : JValue) : string :=
  match v with
  | JUndefined => "undefined"
  | JNull => "null"
  | JBool true => "true"
  | JBool false => "false"
  | JNum n => num n
  | JStr s => s
  | JArr items =>
      let piece x :=
        match x with
        | JUndefined | JNull => ""
        | _ => JSToString_with num obj x
        end in
      (fix go (l : list JValue) : string :=
         match l with
         | [] => ""
         | [x] => piece x
         | x :: r => String.append (piece x) (String.append "," (go r))
         end) items
  | JObj fields => obj fields
  end.

(** ** String predicates of the validator package (default options) *)

Definition is_digit (c : ascii) : bool :=
  let n := nat_of_ascii c in (48 <=? n)%nat && (n <=? 57)%nat.

Fixpoint all_digits (s : string) : bool :=
  match s with
  | EmptyString => true
  | String c r => is_digit c && all_digits r
  end.

(** [[0-9]+] *)
Definition digits1 (s : string) : bool :=
  match s with
  | EmptyString => false
  | String _ _ => all_digits s
  end.

(** Removes one leading [+] or [-]. *)
Definition strip_sign (s : string) : string :=
  match s with
  | String c r => if (Ascii.eqb c "+" || Ascii.eqb c "-")%bool then r else s
  | EmptyString => s
  end.

(** The string left after the longest prefix of digits. *)
Fixpoint skip_digits (s : string) : string :=
  match s with
  | String c r => if is_digit c then skip_digits r else s
  | EmptyString => s
  end.

(** [isInt]: the pattern [^[-+]?[0-9]+$]. *)
Definition validator_isInt (s : string) : bool := digits1 (strip_sign s).

(** [isNumeric]: the pattern [^[+-]?([0-9]*[.])?[0-9]+$]. *)
Definition validator_isNumeric (s : string) : bool :=
  let t := strip_sign s in
  match skip_digits t with
  | EmptyString => digits1 t
  | String c r => Ascii.eqb c "." && digits1 r
  end.

(** [isEmpty]: the string has length zero. *)
Definition validator_isEmpty (s : string) : bool :=
  match s with
  | EmptyString => true
  | String _ _ => false
  end.

(** [isBoolean]: one of the four strict spellings. *)
Definition validator_isBoolean (s : string) : bool :=
  (String.eqb s "true" || String.eqb s "false"
   || String.eqb s "1" || String.eqb s "0")%bool.

(** ** Products and the store *)

Record Product : Type := mkProduct {
  id : Z;
  name : JValue;
  price : JValue;
  availability : bool
}.

(** Modelled from the spec: the data store is an external collaborator that
    holds the product rows and generates the [id] of a new row; [connected]
    records whether the connection made at start-up succeeded. *)
Record Store : Type := mkStore {
  rows : gmap Z Product;
  next_id : Z;
  connected : bool
}.

Inductive StoreResult (A : Type) : Type :=
  | StoreOk (a : A)
  | StoreError.
Arguments StoreOk {A} a.
Arguments StoreError {A}.

(** A line written to the console: [colors.red.bold(text)]. *)
Inductive LogLine : Type :=
  | red_bold (text : string).

(** [connectDB]: the [try] block awaits [db.authenticate()] and then starts
    [db.sync()]; [attempt] is the outcome of the block.  An error is caught
    and logged, and the server goes on without a usable connection. *)
Definition connectDB (attempt : StoreResult unit) (st : Store)
  : Store * list LogLine :=
  match attempt with
  | StoreOk _ => (mkStore (rows st) (next_id st) true, [])
  | StoreError => (mkStore (rows st) (next_id st) false, [red_bold "Hubo un error a la DB"])
  end.

(** The largest [id] in use (0 when there is no row). *)
Definition max_key (m : gmap Z Product) : Z :=
  foldr (fun kv acc => Z.max kv.1 acc) 0%Z (map_to_list m).

(** Modelled from the spec: the [id] the store gives the next row, unique
    and never reused: above the counter and above every [id] in use. *)
Definition fresh_id (st : Store) : Z :=
  Z.max (next_id st) (max_key (rows st) + 1).

(** Modelled from the spec: the store operations the handlers call.  Each of
    them fails when the store cannot be reached. *)
Definition findAll (st : Store) : StoreResult (list Product) :=
  if connected st then StoreOk ((map_to_list (rows st)).*2) else StoreError.

Definition findByPk (st : Store) (i : Z) : StoreResult (option Product) :=
  if connected st then StoreOk (rows st !! i) else StoreError.

Definition create (st : Store) (n p : JValue) : StoreResult (Product * Store) :=
  if connected st then
    let row := mkProduct (fresh_id st) n p true in
    StoreOk (row, mkStore (<[fresh_id st := row]> (rows st)) (fresh_id st + 1) (connected st))
  else StoreError.

Definition save (st : Store) (row : Product) : StoreResult Store :=
  if connected st then
    StoreOk (mkStore (<[id row := row]> (rows st)) (next_id st) (connected st))
  else StoreError.

Definition destroy (st : Store) (i : Z) : StoreResult Store :=
  if connected st then
    StoreOk (mkStore (delete i (rows st)) (next_id st) (connected st))
  else StoreError.

(** ** Requests, responses and the events of a run *)

(** The request methods: those the router registers routes for, [HEAD] and
    [OPTIONS], which Express and [cors] treat on their own, and [OTHER] for
    every other method. *)
Inductive Method : Type := GET | POST | PUT | PATCH | DELETE | HEAD | OPTIONS | OTHER.

#[global] Instance Method_eq_dec : EqDecision Method.
Proof. solve_decision. Defined.

(** A request as the router sees it: the path is the list of segments below
    the mount point [/api/products], the body is the parsed JSON object and
    [req_origin] is the [Origin] header, if any. *)
Record Request : Type := mkRequest {
  req_method : Method;
  req_path : list string;
  req_body : gmap string JValue;
  req_origin : option string
}.

Inductive Location : Type := InParams | InBody.

Record ValidationError : Type := mkError {
  err_msg : string;
  err_param : string;
  err_location : Location;
  err_value : JValue
}.

Inductive Handler : Type :=
  | getProducts
  | getProductById
  | createProduct
  | updateProduct
  | updateAvailability
  | deleteProduct.

#[global] Instance Handler_eq_dec : EqDecision Handler.
Proof. solve_decision. Defined.

(** The body of a response; [BAllow] is the router's own answer to an
    [OPTIONS] request, [BEmpty] a response sent without a body. *)
Inductive Payload : Type :=
  | BProducts (ps : list Product)
  | BProduct (p : Product)
  | BDeleted
  | BErrors (errors : list ValidationError)
  | BNotFound
  | BServerError
  | BNoRoute
  | BAllow (methods : list Method)
  | BEmpty.

Record Response : Type := mkResponse {
  status : nat;
  payload : Payload
}.

(** What happened while a request was served, in order: a validation chain
    ran, the validation middleware let the request through or stopped it, a
    handler was called. *)
Inductive Event : Type :=
  | EvValidate (l : Location) (f : string)
  | EvInputErrors (passed : bool)
  | EvHandler (h : Handler).

Record Result : Type := mkResult {
  response : Response;
  store : Store;
  trace : list Event
}.

(** A route's stack either answers or hands the request on with [next()]. *)
Inductive Step : Type :=
  | Done (r : Result)
  | Next (errs : list ValidationError) (tr : list Event).

Inductive PathPattern : Type :=
  | Root      (* "/" *)
  | IdParam.  (* "/:id" *)

Definition match_path (pat : PathPattern) (p : list string) : option (gmap string string) :=
  match pat, p with
  | Root, [] => Some ∅
  | IdParam, [seg] => Some {["id" := seg]}
  | _, _ => None
  end.

(** ** The id of a row named by a path parameter *)

Fixpoint digits_value (acc : Z) (s : string) : Z :=
  match s with
  | EmptyString => acc
  | String c r => digits_value (10 * acc + (Z.of_nat (nat_of_ascii c) - 48)) r
  end.

(** Modelled from the spec: the [id] path parameter binds to the integer
    primary key; a text that is not an integer names no key. *)
Definition primary_key (s : string) : option Z :=
  if validator_isInt s then
    match s with
    | String c r =>
        if Ascii.eqb c "-" then Some (- digits_value 0 r)%Z
        else Some (digits_value 0 (strip_sign s))
    | EmptyString => None
    end
  else None.

(** Method chaining, left to right: [c |> f] is [c.f(...)]. *)
Notation "c |> f" := (f c) (at level 45, left associativity, only parsing).

(** ** The JavaScript runtime *)

(** What is left to the platform: printing a number, reading a number from
    a string, the string JavaScript converts an object to, and the string
    form express-validator gives an array or an object.  The server is
    defined over any of them. *)
Record JSRuntime : Type := mkRuntime {
  NumberToString : JSNumber -> string;
  StringToNumber : string -> JSNumber;
  ObjectToString : list (string * JValue) -> string;
  CompositeToString : JValue -> string
}.

Definition print_Z (z : Z) : string := NilZero.string_of_int (Z.to_int z).

Fixpoint strip_trailing_zeros (s : string) : string :=
  match s with
  | EmptyString => EmptyString
  | String c r =>
      match strip_trailing_zeros r with
      | EmptyString => if Ascii.eqb c "0" then EmptyString else String c EmptyString
      | r' => String c r'
      end
  end.

(** Exponent notation, [d.ddde+N], with the digits of the integer itself. *)
Definition print_exponent (z : Z) : string :=
  match print_Z (Z.abs z) with
  | EmptyString => EmptyString
  | String c r =>
      let fraction :=
        match strip_trailing_zeros r with
        | EmptyString => EmptyString
        | f => String.append "." f
        end in
      String.append (if (z <? 0)%Z then "-" else "")
        (String c (String.append fraction
                     (String.append "e+" (print_Z (Z.of_nat (String.length r))))))
  end.

(** An integer as JavaScript prints it: in full below [10^21], in exponent
    notation from there on. *)
Definition print_integer (z : Z) : string :=
  if (Z.abs z <? 10 ^ 21)%Z then print_Z z else print_exponent z.

Definition print_number (n : JSNumber) : string :=
  match n with
  | NaN => "NaN"
  | PosInf => "Infinity"
  | NegInf => "-Infinity"
  | Fin q =>
      if Pos.eqb (Qden q) 1 then print_integer (Qnum q)
      else String.append (print_Z (Qnum q))
             (String.append "/" (print_Z (Zpos (Qden q))))
  end.

(** A runtime to evaluate examples with.  It prints integers as JavaScript
    does, the infinities and NaN by name and other fractions as a quotient;
    it reads the empty string as 0, a signed decimal integer as its value
    and every other string as NaN; an object becomes ["[object Object]"]
    and the string form of an array is the join of its elements. *)
Definition integer_runtime : JSRuntime :=
  mkRuntime
    print_number
    (fun s =>
       match s, primary_key s with
       | EmptyString, _ => zero
       | _, Some z => Fin (inject_Z z)
       | _, None => NaN
       end)
    (fun _ => "[object Object]")
    (JSToString_with print_number (fun _ => "[object Object]")).

Section Server.

Variable rt : JSRuntime.

Definition JSToString (v : JValue) : string :=
  JSToString_with (NumberToString rt) (ObjectToString rt) v.

(** JavaScript's [ToNumber]: an array or an object is first converted to
    its string. *)
Definition ToNumber (v : JValue) : JSNumber :=
  match v with
  | JUndefined => NaN
  | JNull => zero
  | JBool true => Fin 1
  | JBool false => zero
  | JNum n => n
  | JStr s => StringToNumber rt s
  | JArr _ | JObj _ => StringToNumber rt (JSToString v)
  end.

(** [v > n] and [v <= n] for a value against a number. *)
Definition js_gt (v : JValue) (n : JSNumber) : bool := JSNumber_lt n (ToNumber v).
Definition js_le (v : JValue) (n : JSNumber) : bool := JSNumber_le (ToNumber v) n.

(** express-validator's string form of a value, on which the standard
    validators run: nothing for a missing field, [null] and NaN. *)
Definition toString (v : JValue) : string :=
  match v with
  | JUndefined | JNull => ""
  | JBool true => "true"
  | JBool false => "false"
  | JNum NaN => ""
  | JNum n => NumberToString rt n
  | JStr s => s
  | JArr _ | JObj _ => CompositeToString rt v
  end.

(** ** Validation chains *)

Inductive Validator : Type :=
  | IsInt
  | IsNumeric
  | NotEmpty
  | IsBoolean
  | Custom (f : JValue -> bool).

Record Rule : Type := mkRule {
  rule_validator : Validator;
  rule_message : string
}.

Record ValidationChain : Type := mkChain {
  chain_location : Location;
  chain_field : string;
  chain_rules : list Rule
}.

Definition param (f : string) : ValidationChain := mkChain InParams f [].
Definition body (f : string) : ValidationChain := mkChain InBody f [].

Definition add_validator (v : Validator) (c : ValidationChain) : ValidationChain :=
  mkChain (chain_location c) (chain_field c) (chain_rules c ++ [mkRule v "Invalid value"]).

Definition isInt := add_validator IsInt.
Definition isNumeric := add_validator IsNumeric.
Definition notEmpty := add_validator NotEmpty.
Definition isBoolean := add_validator IsBoolean.
Definition custom (f : JValue -> bool) := add_validator (Custom f).

(** [withMessage] sets the message of the validator added last. *)
Fixpoint set_last_message (m : string) (rs : list Rule) : list Rule :=
  match rs with
  | [] => []
  | [r] => [mkRule (rule_validator r) m]
  | r :: rest => r :: set_last_message m rest
  end.

Definition withMessage (m : string) (c : ValidationChain) : ValidationChain :=
  mkChain (chain_location c) (chain_field c) (set_last_message m (chain_rules c)).

(** The values a standard validator looks at: the elements of an array,
    the value itself otherwise. *)
Definition checked_values (x : JValue) : list JValue :=
  match x with
  | JArr items => items
  | _ => [x]
  end.

(** The checked values whose string form fails the test [t]. *)
Definition rejected (t : string -> bool) (x : JValue) : list JValue :=
  List.filter (fun e => negb (t (toString e))) (checked_values x).

(** The values a validator reports: a standard validator runs on the
    string form of each checked value, a custom validator once on the
    value as it is. *)
Definition failing_values (v : Validator) (x : JValue) : list JValue :=
  match v with
  | IsInt => rejected validator_isInt x
  | IsNumeric => rejected validator_isNumeric x
  | NotEmpty => rejected (fun s => negb (validator_isEmpty s)) x
  | IsBoolean => rejected validator_isBoolean x
  | Custom f => if f x then [] else [x]
  end.

Definition passes (v : Validator) (x : JValue) : bool :=
  match failing_values v x with
  | [] => true
  | _ :: _ => false
  end.

Definition field_value (l : Location) (f : string)
    (params : gmap string string) (b : gmap string JValue) : JValue :=
  match l with
  | InParams => default JUndefined (JStr <$> params !! f)
  | InBody => default JUndefined (b !! f)
  end.

(** Every validator of a chain runs, in order; each adds one error for
    each value it reports. *)
Fixpoint run_rules (l : Location) (f : string) (x : JValue) (rs : list Rule)
  : list ValidationError :=
  match rs with
  | [] => []
  | r :: rest =>
      (mkError (rule_message r) f l <$> failing_values (rule_validator r) x)
      ++ run_rules l f x rest
  end.

Definition run_chain (c : ValidationChain)
    (params : gmap string string) (b : gmap string JValue) : list ValidationError :=
  run_rules (chain_location c) (chain_field c)
    (field_value (chain_location c) (chain_field c) params b) (chain_rules c).

(** ** Handlers *)

(** Modelled from the spec: [availability] is a boolean in the store; this
    is the boolean a validated [availability] field stands for. *)
Definition as_boolean (v : JValue) : bool :=
  let s := toString v in (String.eqb s "true" || String.eqb s "1")%bool.

Definition respond (code : nat) (b : Payload) (st : Store) : Response * Store :=
  (mkResponse code b, st).

Definition body_field (b : gmap string JValue) (f : string) : JValue :=
  default JUndefined (b !! f).

(** Modelled from the spec: the handlers that work on one product look the
    row named by the [id] parameter up and continue with it; they answer 404
    when there is no such row and 500 when the store fails. *)
Definition with_product (params : gmap string string) (st : Store)
    (k : Product -> Response * Store) : Response * Store :=
  match params !! "id" ≫= primary_key with
  | None => respond 500 BServerError st
  | Some i =>
      match findByPk st i with
      | StoreError => respond 500 BServerError st
      | StoreOk None => respond 404 BNotFound st
      | StoreOk (Some row) => k row
      end
  end.

(** Modelled from the spec: the six handlers of [./handlers/product], one
    store operation each, after section 4.2 of the specification. *)
Definition call (h : Handler) (params : gmap string string)
    (b : gmap string JValue) (st : Store) : Response * Store :=
  match h with
  | getProducts =>
      match findAll st with
      | StoreOk ps => respond 200 (BProducts ps) st
      | StoreError => respond 500 BServerError st
      end
  | getProductById =>
      with_product params st (fun row => respond 200 (BProduct row) st)
  | createProduct =>
      match create st (body_field b "name") (body_field b "price") with
      | StoreOk (row, st') => respond 201 (BProduct row) st'
      | StoreError => respond 500 BServerError st
      end
  | updateProduct =>
      with_product params st (fun row =>
        let row' := mkProduct (id row) (body_field b "name") (body_field b "price")
                              (as_boolean (body_field b "availability")) in
        match save st row' with
        | StoreOk st' => respond 200 (BProduct row') st'
        | StoreError => respond 500 BServerError st
        end)
  | updateAvailability =>
      with_product params st (fun row =>
        let row' := mkProduct (id row) (name row) (price row) (negb (availability row)) in
        match save st row' with
        | StoreOk st' => respond 200 (BProduct row') st'
        | StoreError => respond 500 BServerError st
        end)
  | deleteProduct =>
      with_product params st (fun row =>
        match destroy st (id row) with
        | StoreOk st' => respond 200 BDeleted st'
        | StoreError => respond 500 BServerError st
        end)
  end.

(** ** Routes *)

Inductive Middleware : Type :=
  | Validate (c : ValidationChain)
  | handleInputErrors
  | Handle (h : Handler).

Record Route : Type := mkRoute {
  route_method : Method;
  route_path : PathPattern;
  route_stack : list Middleware
}.

(** Modelled from the spec: [handleInputErrors] of [./midlleware] answers
    400 with the collected errors when there are any, and calls [next()]
    ([None]) when there are none. *)
Definition handleInputErrors_run (errs : list ValidationError) : option Response :=
  match errs with
  | [] => None
  | _ :: _ => Some (mkResponse 400 (BErrors errs))
  end.

(** Runs the middleware of one route in order: a validation chain adds its
    errors to the request, the validation middleware answers or lets the
    request through, a handler answers. *)
Fixpoint run_stack (stk : list Middleware) (params : gmap string string)
    (b : gmap string JValue) (errs : list ValidationError) (st : Store)
    (tr : list Event) : Step :=
  match stk with
  | [] => Next errs tr
  | Validate c :: rest =>
      run_stack rest params b (errs ++ run_chain c params b) st
        (tr ++ [EvValidate (chain_location c) (chain_field c)])
  | handleInputErrors :: rest =>
      match handleInputErrors_run errs with
      | None => run_stack rest params b errs st (tr ++ [EvInputErrors true])
      | Some r => Done (mkResult r st (tr ++ [EvInputErrors false]))
      end
  | Handle h :: rest =>
      let '(r, st') := call h params b st in
      Done (mkResult r st' (tr ++ [EvHandler h]))
  end.

(** A route serves the method it is registered for; a [GET] route serves
    [HEAD] as well. *)
Definition handles (r : Route) (m : Method) : bool :=
  bool_decide (route_method r = m)
  || (bool_decide (m = HEAD) && bool_decide (route_method r = GET)).

(** The methods a route contributes to the router's answer to [OPTIONS]. *)
Definition route_options (r : Route) : list Method :=
  match route_method r with
  | GET => [GET; HEAD]
  | m => [m]
  end.

(** Adds the methods that are not in the list yet. *)
Definition append_methods (allow ms : list Method) : list Method :=
  foldl (fun acc m => if bool_decide (m ∈ acc) then acc else acc ++ [m]) allow ms.

(** Routes are tried in the order of their registration.  For an [OPTIONS]
    request the router collects the methods of the routes on the path and,
    when no route has answered, answers with them itself; any other
    request no route answers gets the framework's 404. *)
Fixpoint dispatch (routes : list Route) (req : Request)
    (errs : list ValidationError) (st : Store) (tr : list Event)
    (allow : list Method) : Result :=
  match routes with
  | [] =>
      match allow with
      | [] => mkResult (mkResponse 404 BNoRoute) st tr
      | _ :: _ => mkResult (mkResponse 200 (BAllow allow)) st tr
      end
  | r :: rest =>
      match match_path (route_path r) (req_path req) with
      | Some params =>
          if handles r (req_method req) then
            match run_stack (route_stack r) params (req_body req) errs st tr with
            | Done res => res
            | Next errs' tr' => dispatch rest req errs' st tr' allow
            end
          else
            dispatch rest req errs st tr
              (if decide (req_method req = OPTIONS)
               then append_methods allow (route_options r) else allow)
      | None => dispatch rest req errs st tr allow
      end
  end.

(** A response to [HEAD] is sent without its body. *)
Definition sent (req : Request) (res : Result) : Result :=
  if decide (req_method req = HEAD) then
    mkResult (mkResponse (status (response res)) BEmpty) (store res) (trace res)
  else res.

Definition id_rule : ValidationChain :=
  param "id" |> isInt |> withMessage "Valor no admitido".

Definition name_rule : ValidationChain :=
  body "name" |> notEmpty |> withMessage "Debes ingresar un nombre de producto".

Definition price_rule : ValidationChain :=
  body "price"
    |> isNumeric
    |> withMessage "Valor no admitido"
    |> notEmpty
    |> withMessage "Debes ingresar un precio de producto"
    |> custom (fun value => js_gt value zero)
    |> withMessage "Valor no admitido".

Definition availability_rule : ValidationChain :=
  body "availability" |> isBoolean |> withMessage "Valor de disponibilidad no válido".

Definition patch_route : Route :=
  mkRoute PATCH IdParam [Validate id_rule; handleInputErrors; Handle updateAvailability].

(** The route table of [src/router.ts], in registration order; the PATCH
    route is registered twice. *)
Definition router : list Route :=
  [ mkRoute GET Root [Handle getProducts];
    mkRoute GET IdParam [Validate id_rule; handleInputErrors; Handle getProductById];
    mkRoute POST Root
      [Validate name_rule; Validate price_rule; handleInputErrors; Handle createProduct];
    mkRoute PUT IdParam
      [Validate id_rule; Validate name_rule; Validate price_rule;
       Validate availability_rule; handleInputErrors; Handle updateProduct];
    patch_route;
    patch_route;
    mkRoute DELETE IdParam [Validate id_rule; handleInputErrors; Handle deleteProduct] ].

(** The same table with the PATCH route registered once. *)
Definition router_single_patch : list Route :=
  [ mkRoute GET Root [Handle getProducts];
    mkRoute GET IdParam [Validate id_rule; handleInputErrors; Handle getProductById];
    mkRoute POST Root
      [Validate name_rule; Validate price_rule; handleInputErrors; Handle createProduct];
    mkRoute PUT IdParam
      [Validate id_rule; Validate name_rule; Validate price_rule;
       Validate availability_rule; handleInputErrors; Handle updateProduct];
    patch_route;
    mkRoute DELETE IdParam [Validate id_rule; handleInputErrors; Handle deleteProduct] ].

Definition serve (routes : list Route) (req : Request) (st : Store) : Result :=
  sent req (dispatch routes req [] st [] []).

(** ** Server assembly *)

Inductive CorsCallback : Type :=
  | callback_ok (allow : bool)      (* callback(null, allow) *)
  | callback_err (message : string). (* callback(new Error(message)) *)

(** [corsOptions.origin]: strict equality of the request's origin with
    [process.env.FRONTEND_URL]; either may be undefined. *)
Definition corsOptions_origin (FRONTEND_URL origin : option string) : CorsCallback :=
  if decide (origin = FRONTEND_URL) then callback_ok true
  else callback_err "Error de CORS".

Inductive ServerOutcome : Type :=
  | Blocked (message : string)
  | Preflight (code : nat)
  | Served (r : Result).

(** [server]: the CORS middleware first, then the router mounted under
    [/api/products].  An error passed by the origin callback goes to
    [next(err)] and the request gets no further; an [OPTIONS] request of an
    allowed origin is a preflight, which [cors] answers itself with 204
    and no body; body parsing and access logging leave the parsed request
    as it is. *)
Definition server (FRONTEND_URL : option string) (req : Request) (st : Store)
  : ServerOutcome :=
  match corsOptions_origin FRONTEND_URL (req_origin req) with
  | callback_err e => Blocked e
  | callback_ok allow =>
      if allow && bool_decide (req_method req = OPTIONS) then Preflight 204
      else Served (serve router req st)
  end.

(** ** Auxiliary definitions for the statements *)

(** A stack of validation chains followed by the validation middleware and a
    handler: the shape of every route but the list route. *)
Definition guarded (cs : list ValidationChain) (h : Handler) : list Middleware :=
  (Validate <$> cs) ++ [handleInputErrors; Handle h].

Definition validation_errors (cs : list ValidationChain)
    (params : gmap string string) (b : gmap string JValue) : list ValidationError :=
  cs ≫= (fun c => run_chain c params b).

Definition validation_events (cs : list ValidationChain) : list Event :=
  (fun c => EvValidate (chain_location c) (chain_field c)) <$> cs.

(** The handler [h] runs only after the validation middleware has let the
    request through. *)
Definition after_validation (tr : list Event) (h : Handler) : Prop :=
  forall pre post, tr = pre ++ EvHandler h :: post -> EvInputErrors true ∈ pre.

(** What a guarded route answers: 400 with the errors when a validator
    failed, the handler's response otherwise. *)
Definition guarded_result (cs : list ValidationChain) (h : Handler)
    (params : gmap string string) (b : gmap string JValue) (st : Store) : Result :=
  match validation_errors cs params b with
  | [] =>
      let '(r, st') := call h params b st in
      mkResult r st' (validation_events cs ++ [EvInputErrors true; EvHandler h])
  | e :: es =>
      mkResult (mkResponse 400 (BErrors (e :: es))) st
        (validation_events cs ++ [EvInputErrors false])
  end.

(** All the validators of a chain pass on the request. *)
Definition chain_ok (c : ValidationChain)
    (params : gmap string string) (b : gmap string JValue) : bool :=
  forallb (fun r => passes (rule_validator r)
                      (field_value (chain_location c) (chain_field c) params b))
          (chain_rules c).

(** The string form of every checked value of [v] passes the test [t];
    the string form of some checked value of [v] passes it. *)
Definition every_value (t : string -> bool) (v : JValue) : bool :=
  forallb (fun e => t (toString e)) (checked_values v).


Definition not_empty (s : string) : bool := negb (validator_isEmpty s).


(** An error of the price rule. *)
Definition price_error (m : string) (v : JValue) : ValidationError :=
  mkError m "price" InBody v.

(** A route that always answers: its stack never hands the request on. *)
Definition answers (r : Route) : Prop :=
  forall params b errs st tr,
    exists res, run_stack (route_stack r) params b errs st tr = Done res.

(** The answer of a single route to a request, if the route serves it. *)
Definition route_result (r : Route) (req : Request) (errs : list ValidationError)
    (st : Store) (tr : list Event) : option Result :=
  params ← match_path (route_path r) (req_path req);
  if handles r (req_method req) then
    match run_stack (route_stack r) params (req_body req) errs st tr with
    | Done res => Some res
    | Next _ _ => None
    end
  else None.

(** Two results that differ at most in the order of the methods of the
    router's answer to [OPTIONS]. *)
Definition same_but_allow_order (r1 r2 : Result) : Prop :=
  store r1 = store r2
  /\ trace r1 = trace r2
  /\ status (response r1) = status (response r2)
  /\ match payload (response r1), payload (response r2) with
     | BAllow a1, BAllow a2 => a1 ≡ₚ a2
     | p1, p2 => p1 = p2
     end.

(** The methods the router collects for an [OPTIONS] request on a path. *)
Definition allowed (routes : list Route) (p : list string) (allow : list Method)
  : list Method :=
  foldl (fun acc r =>
           match match_path (route_path r) p with
           | Some _ => append_methods acc (route_options r)
           | None => acc
           end) allow routes.

(** The router's own answer to a request no route has answered. *)
Definition unanswered (allow : list Method) (st : Store) (tr : list Event) : Result :=
  match allow with
  | [] => mkResult (mkResponse 404 BNoRoute) st tr
  | _ :: _ => mkResult (mkResponse 200 (BAllow allow)) st tr
  end.

(** ** Numbers *)



(** ** Running a chain *)

Lemma filter_nil_forallb {A} (t : A -> bool) (l : list A) :
  match List.filter (fun e => negb (t e)) l with [] => true | _ :: _ => false end
  = forallb t l.
Proof.
  induction l as [|x l IH]; [done|]. cbn. by destruct (t x).
Qed.

Lemma passes_standard (t : string -> bool) (x : JValue) :
  match rejected t x with [] => true | _ :: _ => false end = every_value t x.
Proof. unfold rejected, every_value. apply filter_nil_forallb. Qed.

Lemma every_value_scalar t x :
  (forall items, x <> JArr items) -> every_value t x = t (toString x).
Proof.
  intros Hx. unfold every_value.
  destruct x; cbn; try apply andb_true_r. by destruct (Hx items).
Qed.



Lemma field_value_id (seg : string) (b : gmap string JValue) :
  field_value InParams "id" {["id" := seg]} b = JStr seg.
Proof. unfold field_value. by rewrite lookup_singleton_eq. Qed.

Lemma run_chain_id (seg : string) (b : gmap string JValue) :
  run_chain id_rule {["id" := seg]} b =
  if validator_isInt seg then []
  else [mkError "Valor no admitido" "id" InParams (JStr seg)].
Proof.
  unfold run_chain.
  change (chain_location id_rule) with InParams.
  change (chain_field id_rule) with "id".
  rewrite field_value_id. cbn. by destruct (validator_isInt seg).
Qed.

Lemma run_chain_nil c params b :
  run_chain c params b = [] <-> chain_ok c params b = true.
Proof.
  unfold run_chain, chain_ok.
  generalize (field_value (chain_location c) (chain_field c) params b) as x.
  intros x. induction (chain_rules c) as [|r rs IH]; cbn; [done|].
  unfold passes. destruct (failing_values (rule_validator r) x); cbn; [exact IH|].
  split; discriminate.
Qed.

Lemma validation_errors_nil cs params b :
  validation_errors cs params b = [] <-> forallb (fun c => chain_ok c params b) cs = true.
Proof.
  unfold validation_errors. induction cs as [|c cs IH]; cbn; [done|].
  rewrite andb_true_iff, <- IH, <- run_chain_nil.
  split.
  - intros H%app_eq_nil. exact H.
  - intros [-> ->]. reflexivity.
Qed.

Lemma validation_errors_not_nil cs params b :
  forallb (fun c => chain_ok c params b) cs = false ->
  validation_errors cs params b <> [].
Proof. intros H Hnil%validation_errors_nil. congruence. Qed.

Lemma chain_ok_id seg b : chain_ok id_rule {["id" := seg]} b = validator_isInt seg.
Proof.
  destruct (validator_isInt seg) eqn:H.
  - apply run_chain_nil. by rewrite run_chain_id, H.
  - apply not_true_is_false. intros Hok%run_chain_nil.
    by rewrite run_chain_id, H in Hok.
Qed.

Lemma chain_ok_name params b :
  chain_ok name_rule params b = every_value not_empty (body_field b "name").
Proof.
  unfold chain_ok. cbn [name_rule chain_rules chain_location chain_field body notEmpty
    withMessage add_validator set_last_message app forallb rule_validator field_value].
  unfold passes. cbn [failing_values]. rewrite passes_standard. apply andb_true_r.
Qed.

Lemma chain_ok_price params b :
  chain_ok price_rule params b =
  every_value validator_isNumeric (body_field b "price")
  && every_value not_empty (body_field b "price")
  && js_gt (body_field b "price") zero.
Proof.
  unfold chain_ok. cbn [price_rule chain_rules chain_location chain_field body notEmpty
    isNumeric custom withMessage add_validator set_last_message app forallb
    rule_validator field_value].
  unfold passes. cbn [failing_values]. rewrite !passes_standard.
  change (default JUndefined (b !! "price")) with (body_field b "price").
  rewrite andb_true_r, andb_assoc. f_equal.
  by destruct (js_gt (body_field b "price") zero).
Qed.

Lemma chain_ok_availability params b :
  chain_ok availability_rule params b =
  every_value validator_isBoolean (body_field b "availability").
Proof.
  unfold chain_ok. cbn [availability_rule chain_rules chain_location chain_field body
    isBoolean withMessage add_validator set_last_message app forallb rule_validator
    field_value].
  unfold passes. cbn [failing_values]. rewrite passes_standard. apply andb_true_r.
Qed.

Lemma numeric_not_empty s :
  validator_isNumeric s = true -> validator_isEmpty s = false.
Proof. by destruct s. Qed.

Lemma every_numeric_not_empty v :
  every_value validator_isNumeric v = true -> every_value not_empty v = true.
Proof.
  unfold every_value, not_empty. rewrite !forallb_forall.
  intros H e He. by rewrite (numeric_not_empty _ (H e He)).
Qed.

Lemma id_rule_fails seg cs b :
  validator_isInt seg = false ->
  validation_errors (id_rule :: cs) {["id" := seg]} b <> [].
Proof.
  intros H.
  change (validation_errors (id_rule :: cs) {["id" := seg]} b)
    with (run_chain id_rule {["id" := seg]} b ++ validation_errors cs {["id" := seg]} b).
  rewrite run_chain_id, H. discriminate.
Qed.

Lemma validation_errors_id seg b :
  validation_errors [id_rule] {["id" := seg]} b = [] <-> validator_isInt seg = true.
Proof.
  rewrite validation_errors_nil. cbn [forallb]. rewrite andb_true_r, chain_ok_id. done.
Qed.

(** ** Running a route *)

Lemma run_stack_guarded cs h params b errs st tr :
  run_stack (guarded cs h) params b errs st tr =
  match errs ++ validation_errors cs params b with
  | [] =>
      let '(r, st') := call h params b st in
      Done (mkResult r st'
              (tr ++ validation_events cs ++ [EvInputErrors true; EvHandler h]))
  | e :: es =>
      Done (mkResult (mkResponse 400 (BErrors (e :: es))) st
              (tr ++ validation_events cs ++ [EvInputErrors false]))
  end.
Proof.
  revert errs tr. induction cs as [|c cs IH]; intros errs tr.
  - cbn. rewrite app_nil_r. destruct errs; [|done].
    destruct (call h params b st). by rewrite <- app_assoc.
  - change (guarded (c :: cs) h) with (Validate c :: guarded cs h).
    cbn [run_stack]. rewrite IH.
    change (validation_errors (c :: cs) params b)
      with (run_chain c params b ++ validation_errors cs params b).
    change (validation_events (c :: cs))
      with (EvValidate (chain_location c) (chain_field c) :: validation_events cs).
    rewrite <- !app_assoc. reflexivity.
Qed.

Lemma guarded_answers cs h params b errs st tr :
  exists res, run_stack (guarded cs h) params b errs st tr = Done res.
Proof.
  rewrite run_stack_guarded.
  destruct (errs ++ validation_errors cs params b); [|by eexists].
  destruct (call h params b st). by eexists.
Qed.

Lemma dispatch_skip r rest req errs st tr allow :
  match_path (route_path r) (req_path req) = None
  \/ (handles r (req_method req) = false /\ req_method req <> OPTIONS) ->
  dispatch (r :: rest) req errs st tr allow = dispatch rest req errs st tr allow.
Proof.
  intros H. cbn [dispatch].
  destruct (match_path (route_path r) (req_path req)) as [params|]; [|done].
  destruct H as [H|[H Hm]]; [done|]. rewrite H. by rewrite decide_False.
Qed.

Lemma dispatch_hit r rest req errs st tr allow params :
  match_path (route_path r) (req_path req) = Some params ->
  handles r (req_method req) = true ->
  dispatch (r :: rest) req errs st tr allow =
  match run_stack (route_stack r) params (req_body req) errs st tr with
  | Done res => res
  | Next errs' tr' => dispatch rest req errs' st tr' allow
  end.
Proof. intros Hp Hm. cbn [dispatch]. by rewrite Hp, Hm. Qed.

Lemma dispatch_guarded m pat cs h rest req params st allow :
  match_path pat (req_path req) = Some params ->
  handles (mkRoute m pat (guarded cs h)) (req_method req) = true ->
  dispatch (mkRoute m pat (guarded cs h) :: rest) req [] st [] allow =
  guarded_result cs h params (req_body req) st.
Proof.
  intros Hp Hm. rewrite (dispatch_hit _ _ _ _ _ _ _ params) by done.
  cbn [route_stack]. rewrite run_stack_guarded. unfold guarded_result. cbn [app].
  destruct (validation_errors cs params (req_body req)); [|done].
  by destruct (call h params (req_body req) st).
Qed.

Ltac skip_route :=
  rewrite dispatch_skip by (first [left; reflexivity | right; split; [reflexivity|discriminate]]).

(** What the table answers, by method and path. *)

Lemma dispatch_list m b o st :
  m = GET \/ m = HEAD ->
  dispatch router (mkRequest m [] b o) [] st [] [] =
  let '(r, st') := call getProducts ∅ b st in
  mkResult r st' [EvHandler getProducts].
Proof.
  intros Hm. unfold router.
  rewrite (dispatch_hit _ _ _ _ _ _ _ ∅) by (by destruct Hm as [-> | ->]).
  cbn [route_stack run_stack req_body]. by destruct (call getProducts ∅ b st).
Qed.

Lemma dispatch_get_id m seg b o st :
  m = GET \/ m = HEAD ->
  dispatch router (mkRequest m [seg] b o) [] st [] [] =
  guarded_result [id_rule] getProductById {["id" := seg]} b st.
Proof.
  intros Hm. unfold router. rewrite dispatch_skip by (by left).
  by rewrite (dispatch_guarded GET IdParam [id_rule] getProductById _ _ {["id" := seg]})
    by (by destruct Hm as [-> | ->]).
Qed.

Lemma dispatch_post b o st :
  dispatch router (mkRequest POST [] b o) [] st [] [] =
  guarded_result [name_rule; price_rule] createProduct ∅ b st.
Proof.
  unfold router. do 2 skip_route.
  by rewrite (dispatch_guarded POST Root [name_rule; price_rule] createProduct _ _ ∅).
Qed.

Lemma dispatch_put seg b o st :
  dispatch router (mkRequest PUT [seg] b o) [] st [] [] =
  guarded_result [id_rule; name_rule; price_rule; availability_rule] updateProduct
    {["id" := seg]} b st.
Proof.
  unfold router. do 3 skip_route.
  by rewrite (dispatch_guarded PUT IdParam
                [id_rule; name_rule; price_rule; availability_rule] updateProduct
                _ _ {["id" := seg]}).
Qed.

Lemma dispatch_patch seg b o st :
  dispatch router (mkRequest PATCH [seg] b o) [] st [] [] =
  guarded_result [id_rule] updateAvailability {["id" := seg]} b st.
Proof.
  unfold router. do 4 skip_route.
  by rewrite (dispatch_guarded PATCH IdParam [id_rule] updateAvailability _ _ {["id" := seg]}).
Qed.

Lemma dispatch_delete seg b o st :
  dispatch router (mkRequest DELETE [seg] b o) [] st [] [] =
  guarded_result [id_rule] deleteProduct {["id" := seg]} b st.
Proof.
  unfold router. do 6 skip_route.
  by rewrite (dispatch_guarded DELETE IdParam [id_rule] deleteProduct _ _ {["id" := seg]}).
Qed.

Lemma dispatch_options_root b o st :
  dispatch router (mkRequest OPTIONS [] b o) [] st [] [] =
  mkResult (mkResponse 200 (BAllow [GET; HEAD; POST])) st [].
Proof. reflexivity. Qed.

Lemma dispatch_options_id seg b o st :
  dispatch router (mkRequest OPTIONS [seg] b o) [] st [] [] =
  mkResult (mkResponse 200 (BAllow [GET; HEAD; PUT; PATCH; DELETE])) st [].
Proof. reflexivity. Qed.

Lemma dispatch_no_route m p b o st :
  match m, p with
  | (GET | HEAD | POST | OPTIONS), []
  | (GET | HEAD | PUT | PATCH | DELETE | OPTIONS), [_] => False
  | _, _ => True
  end ->
  dispatch router (mkRequest m p b o) [] st [] [] =
  mkResult (mkResponse 404 BNoRoute) st [].
Proof.
  intros H. destruct m, p as [|seg [|seg' p]]; try done; reflexivity.
Qed.

Lemma serve_not_head routes req st :
  req_method req <> HEAD -> serve routes req st = dispatch routes req [] st [] [].
Proof. intros H. unfold serve, sent. by rewrite decide_False. Qed.

Lemma trace_sent req res : trace (sent req res) = trace res.
Proof. unfold sent. by case_decide. Qed.

Lemma store_sent req res : store (sent req res) = store res.
Proof. unfold sent. by case_decide. Qed.

Lemma status_sent req res : status (response (sent req res)) = status (response res).
Proof. unfold sent. by case_decide. Qed.

Lemma serve_list b o st :
  serve router (mkRequest GET [] b o) st =
  let '(r, st') := call getProducts ∅ b st in
  mkResult r st' [EvHandler getProducts].
Proof. rewrite serve_not_head by done. apply dispatch_list. by left. Qed.

Lemma serve_get_id seg b o st :
  serve router (mkRequest GET [seg] b o) st =
  guarded_result [id_rule] getProductById {["id" := seg]} b st.
Proof. rewrite serve_not_head by done. apply dispatch_get_id. by left. Qed.

Lemma serve_head_id seg b o st :
  serve router (mkRequest HEAD [seg] b o) st =
  sent (mkRequest HEAD [seg] b o)
    (guarded_result [id_rule] getProductById {["id" := seg]} b st).
Proof. unfold serve. rewrite dispatch_get_id by (by right). done. Qed.

Lemma serve_head_list b o st :
  serve router (mkRequest HEAD [] b o) st =
  sent (mkRequest HEAD [] b o)
    (let '(r, st') := call getProducts ∅ b st in
     mkResult r st' [EvHandler getProducts]).
Proof. unfold serve. rewrite dispatch_list by (by right). done. Qed.

Lemma serve_post b o st :
  serve router (mkRequest POST [] b o) st =
  guarded_result [name_rule; price_rule] createProduct ∅ b st.
Proof. rewrite serve_not_head by done. apply dispatch_post. Qed.

Lemma serve_put seg b o st :
  serve router (mkRequest PUT [seg] b o) st =
  guarded_result [id_rule; name_rule; price_rule; availability_rule] updateProduct
    {["id" := seg]} b st.
Proof. rewrite serve_not_head by done. apply dispatch_put. Qed.

Lemma serve_patch seg b o st :
  serve router (mkRequest PATCH [seg] b o) st =
  guarded_result [id_rule] updateAvailability {["id" := seg]} b st.
Proof. rewrite serve_not_head by done. apply dispatch_patch. Qed.

Lemma serve_delete seg b o st :
  serve router (mkRequest DELETE [seg] b o) st =
  guarded_result [id_rule] deleteProduct {["id" := seg]} b st.
Proof. rewrite serve_not_head by done. apply dispatch_delete. Qed.

Lemma sent_not_head req res : req_method req <> HEAD -> sent req res = res.
Proof. intros H. unfold sent. by rewrite decide_False. Qed.

(** Rewrites the answer of the table to a request with a concrete method
    and path shape into the answer of its route. *)
Ltac route_cases :=
  unfold serve;
  first [ rewrite dispatch_list by (first [by left | by right])
        | rewrite dispatch_get_id by (first [by left | by right])
        | rewrite dispatch_post
        | rewrite dispatch_put
        | rewrite dispatch_patch
        | rewrite dispatch_delete
        | rewrite dispatch_options_root
        | rewrite dispatch_options_id
        | rewrite dispatch_no_route by done ];
  try rewrite sent_not_head by discriminate.

(** ** Facts about guarded routes *)

Lemma guarded_result_rejected cs h params b st :
  validation_errors cs params b <> [] ->
  status (response (guarded_result cs h params b st)) = 400
  /\ store (guarded_result cs h params b st) = st
  /\ forall h', EvHandler h' ∉ trace (guarded_result cs h params b st).
Proof.
  intros Hne. unfold guarded_result.
  destruct (validation_errors cs params b) as [|e es]; [done|]. cbn.
  repeat split. intros h' Hin.
  apply elem_of_app in Hin as [Hin|Hin].
  - unfold validation_events in Hin. apply list_elem_of_fmap in Hin as (c & Hc & _).
    discriminate.
  - apply list_elem_of_singleton in Hin. discriminate.
Qed.

Lemma guarded_result_accepted cs h params b st :
  validation_errors cs params b = [] ->
  guarded_result cs h params b st =
  mkResult (call h params b st).1 (call h params b st).2
    (validation_events cs ++ [EvInputErrors true; EvHandler h]).
Proof.
  intros Hnil. unfold guarded_result. rewrite Hnil.
  by destruct (call h params b st).
Qed.

Lemma guarded_result_trace cs h params b st :
  trace (guarded_result cs h params b st) =
  validation_events cs ++
    match validation_errors cs params b with
    | [] => [EvInputErrors true; EvHandler h]
    | _ :: _ => [EvInputErrors false]
    end.
Proof.
  unfold guarded_result.
  destruct (validation_errors cs params b); [|done].
  by destruct (call h params b st).
Qed.

Lemma guarded_result_handler_iff cs h params b st h' :
  EvHandler h' ∈ trace (guarded_result cs h params b st)
  <-> h' = h /\ validation_errors cs params b = [].
Proof.
  rewrite guarded_result_trace, elem_of_app. unfold validation_events.
  rewrite list_elem_of_fmap.
  destruct (validation_errors cs params b) as [|e es]; split.
  - intros [(c & Hc & _)|Hin]; [discriminate|].
    apply elem_of_cons in Hin as [Hin|Hin]; [discriminate|].
    apply list_elem_of_singleton in Hin. by injection Hin as ->.
  - intros [-> _]. right. right. left.
  - intros [(c & Hc & _)|Hin]; [discriminate|].
    apply list_elem_of_singleton in Hin. discriminate.
  - intros [_ Hnil]. discriminate.
Qed.

Lemma validation_events_split cs tl pre h post :
  validation_events cs ++ tl = pre ++ EvHandler h :: post ->
  exists pre', pre = validation_events cs ++ pre' /\ tl = pre' ++ EvHandler h :: post.
Proof.
  unfold validation_events.
  revert pre. induction cs as [|c cs IH]; intros pre Heq; cbn in *.
  - by exists pre.
  - destruct pre as [|e pre]; cbn in Heq; [discriminate|].
    injection Heq as <- Heq. destruct (IH _ Heq) as (pre' & -> & ->).
    by exists pre'.
Qed.

Lemma guarded_result_after_validation cs h params b st h' :
  after_validation (trace (guarded_result cs h params b st)) h'.
Proof.
  unfold guarded_result. intros pre post Htr.
  destruct (validation_errors cs params b) as [|e es].
  - destruct (call h params b st) as [r st']. cbn in Htr.
    apply validation_events_split in Htr as (pre' & -> & Htl).
    apply elem_of_app. right.
    destruct pre' as [|e1 pre']; cbn in Htl; [discriminate|].
    injection Htl as <- _. left.
  - cbn in Htr.
    apply validation_events_split in Htr as (pre' & -> & Htl).
    destruct pre' as [|e1 [|e2 pre']]; cbn in Htl; discriminate.
Qed.

(** ** Validation failures *)

(** C1: on the get-by-id, update, patch-availability and delete routes
    (the get-by-id route serves HEAD as well) a value of the [:id] segment
    that is not an integer is answered with HTTP 400; no handler is invoked
    and the store is left as it was. *)
Theorem non_integer_id_rejected (m : Method) (seg : string)
    (b : gmap string JValue) (o : option string) (st : Store) :
  In m [GET; HEAD; PUT; PATCH; DELETE] ->
  validator_isInt seg = false ->
  let r := serve router (mkRequest m [seg] b o) st in
  status (response r) = 400 /\ store r = st /\ forall h, EvHandler h ∉ trace r.
Proof.
  intros Hm Hseg. cbv zeta.
  destruct m; cbn in Hm; try (exfalso; intuition discriminate); route_cases;
    rewrite ?status_sent, ?store_sent, ?trace_sent;
    by apply guarded_result_rejected, id_rule_fails.
Qed.


(** C6: a full update (PUT) whose body omits [name], [price] or
    [availability] is answered with HTTP 400 and the handler is not
    invoked. *)
Theorem incomplete_update_rejected (seg : string) (b : gmap string JValue)
    (o : option string) (st : Store) :
  b !! "name" = None \/ b !! "price" = None \/ b !! "availability" = None ->
  let r := serve router (mkRequest PUT [seg] b o) st in
  status (response r) = 400 /\ store r = st /\ forall h, EvHandler h ∉ trace r.
Proof.
  intros H. cbv zeta. rewrite serve_put.
  apply guarded_result_rejected, validation_errors_not_nil.
  cbn [forallb]. rewrite chain_ok_name, chain_ok_price, chain_ok_availability.
  unfold body_field.
  destruct H as [H|[H|H]]; rewrite H; cbn; by rewrite ?andb_false_r.
Qed.

(** ** Handlers and the store *)



Lemma with_product_absent params st k i :
  params !! "id" ≫= primary_key = Some i ->
  rows st !! i = None ->
  connected st = true ->
  with_product params st k = (mkResponse 404 BNotFound, st).
Proof.
  intros Hid Hrow Hup. unfold with_product, findByPk.
  by rewrite Hid, Hup, Hrow.
Qed.


Lemma with_product_unreachable params st k :
  connected st = false ->
  with_product params st k = (mkResponse 500 BServerError, st).
Proof.
  intros Hdown. unfold with_product, findByPk. rewrite Hdown.
  by destruct (params !! "id" ≫= primary_key).
Qed.




Lemma primary_key_isInt s i : primary_key s = Some i -> validator_isInt s = true.
Proof. unfold primary_key. by destruct (validator_isInt s). Qed.

(** At the level of the routes that take no body: an integer [id] that is
    not in a reachable store passes validation and gets the handler's 404. *)
Lemma absent_id_route m h seg b o st i :
  (m, h) ∈ [(GET, getProductById); (PATCH, updateAvailability); (DELETE, deleteProduct)] ->
  primary_key seg = Some i ->
  rows st !! i = None ->
  connected st = true ->
  serve router (mkRequest m [seg] b o) st =
  mkResult (mkResponse 404 BNotFound) st
    [EvValidate InParams "id"; EvInputErrors true; EvHandler h].
Proof.
  intros Hmh Hkey Hrow Hup.
  assert (Hp : ({["id" := seg]} : gmap string string) !! "id" ≫= primary_key = Some i)
    by by rewrite lookup_singleton_eq.
  assert (Hv : validation_errors [id_rule] {["id" := seg]} b = []).
  { apply validation_errors_id. by eapply primary_key_isInt. }
  repeat (apply elem_of_cons in Hmh as [[= -> ->]|Hmh]);
    [rewrite serve_get_id|rewrite serve_patch|rewrite serve_delete|by apply elem_of_nil in Hmh];
    rewrite guarded_result_accepted by done;
    cbn [call]; by rewrite (with_product_absent _ _ _ i).
Qed.

(** C4, amended: for an [id] that is not in the store the get-by-id,
    update, patch-availability and delete operations leave the store as it
    was; they answer HTTP 404 when the store is reachable and HTTP 500 when
    it is not. *)
Theorem absent_id_not_found (h : Handler) (params : gmap string string)
    (b : gmap string JValue) (st : Store) (i : Z) :
  In h [getProductById; updateProduct; updateAvailability; deleteProduct] ->
  params !! "id" ≫= primary_key = Some i ->
  rows st !! i = None ->
  (call h params b st).2 = st
  /\ (connected st = true -> (call h params b st).1 = mkResponse 404 BNotFound)
  /\ (connected st = false -> (call h params b st).1 = mkResponse 500 BServerError).
Proof.
  intros Hh Hid Hrow.
  destruct h; cbn in Hh; try (exfalso; intuition discriminate); cbn [call];
    (destruct (connected st) eqn:Hup;
     [ rewrite (with_product_absent _ _ _ i) by done
     | rewrite with_product_unreachable by done ]);
    repeat split; intros; try done; discriminate.
Qed.


(** ** Order of the middleware *)

(** C7, amended: every handler other than the list handler is invoked only
    after the validation middleware has let the request through. *)
Theorem handlers_after_validation (req : Request) (st : Store) (h : Handler) :
  h <> getProducts ->
  after_validation (trace (serve router req st)) h.
Proof.
  intros Hh. destruct req as [m p b o].
  destruct m, p as [|seg [|seg' p]]; route_cases; rewrite ?trace_sent;
    try apply guarded_result_after_validation;
    try (intros [|e pre] post Heq; discriminate);
    destruct (call getProducts ∅ b st) as [r st'];
    intros [|e [|e' pre]] post Heq; cbn in Heq; try discriminate;
    injection Heq as Heq _; congruence.
Qed.

Lemma append_methods_spec (ms allow : list Method) :
  (forall m, m ∈ append_methods allow ms <-> m ∈ allow \/ m ∈ ms)
  /\ (NoDup allow -> NoDup (append_methods allow ms)).
Proof.
  unfold append_methods. revert allow.
  induction ms as [|x ms IH]; intros allow; cbn.
  - split; [|done]. intros m. rewrite elem_of_nil. tauto.
  - case_bool_decide as Hx.
    + destruct (IH allow) as [Hin Hnd]. split; [|done].
      intros m. rewrite Hin, elem_of_cons. split; [tauto|].
      intros [H|[->|H]]; tauto.
    + destruct (IH (allow ++ [x])) as [Hin Hnd]. split.
      * intros m. rewrite Hin, elem_of_app, list_elem_of_singleton, elem_of_cons. tauto.
      * intros Hallow. apply Hnd. apply NoDup_app. repeat split; [done| |apply NoDup_singleton].
        intros y Hy ->%list_elem_of_singleton. done.
Qed.

Lemma append_methods_absorb (ms allow : list Method) :
  (forall m, m ∈ ms -> m ∈ allow) -> append_methods allow ms = allow.
Proof.
  unfold append_methods. revert allow.
  induction ms as [|x ms IH]; intros allow Hall; cbn; [done|].
  rewrite bool_decide_eq_true_2 by (apply Hall; left).
  apply IH. intros m Hm. apply Hall. by right.
Qed.

Lemma append_methods_twice (ms allow : list Method) :
  append_methods (append_methods allow ms) ms = append_methods allow ms.
Proof.
  apply append_methods_absorb. intros m Hm.
  apply append_methods_spec. by right.
Qed.

(** A route whose stack always answers is never passed over by [next()],
    so registering it a second time changes nothing. *)
Lemma dispatch_duplicate r rest req errs st tr allow :
  (forall params, exists res,
      run_stack (route_stack r) params (req_body req) errs st tr = Done res) ->
  dispatch (r :: r :: rest) req errs st tr allow
  = dispatch (r :: rest) req errs st tr allow.
Proof.
  intros Hdone. cbn [dispatch].
  destruct (match_path (route_path r) (req_path req)) as [params|]; [|done].
  destruct (handles r (req_method req)).
  - destruct (Hdone params) as [res ->]. done.
  - case_decide; [|done]. by rewrite append_methods_twice.
Qed.

Lemma dispatch_cons_ext r rest1 rest2 req errs st tr allow :
  (forall errs' tr' allow',
      dispatch rest1 req errs' st tr' allow' = dispatch rest2 req errs' st tr' allow') ->
  dispatch (r :: rest1) req errs st tr allow = dispatch (r :: rest2) req errs st tr allow.
Proof.
  intros H. cbn [dispatch]. rewrite !H.
  destruct (match_path (route_path r) (req_path req)) as [params|]; [|done].
  destruct (handles r (req_method req)); [|done].
  by destruct (run_stack (route_stack r) params (req_body req) errs st tr).
Qed.

(** C9: the route table with the PATCH [/:id] route registered twice
    answers every request as the table with a single registration does:
    same response, same store, same events. *)
Theorem duplicate_patch_equivalent (req : Request) (st : Store) :
  serve router req st = serve router_single_patch req st.
Proof.
  unfold serve, router, router_single_patch. f_equal.
  do 4 (apply dispatch_cons_ext; intros ? ? ?).
  apply dispatch_duplicate. intros params.
  apply (guarded_answers [id_rule] updateAvailability).
Qed.

(** ** CORS *)

(** C8, amended: the CORS check rejects a request with an error exactly
    when its origin differs from the configured [FRONTEND_URL]; a request
    whose origin is equal to it goes on to the router, unless it is an
    [OPTIONS] request, which [cors] answers itself as a preflight. *)
Theorem cors_rejects_iff_origin_differs (FRONTEND_URL : option string)
    (req : Request) (st : Store) :
  (corsOptions_origin FRONTEND_URL (req_origin req) = callback_err "Error de CORS"
     <-> req_origin req <> FRONTEND_URL)
  /\ (server FRONTEND_URL req st = Blocked "Error de CORS"
     <-> req_origin req <> FRONTEND_URL)
  /\ (req_origin req = FRONTEND_URL ->
      corsOptions_origin FRONTEND_URL (req_origin req) = callback_ok true
      /\ (req_method req <> OPTIONS ->
          server FRONTEND_URL req st = Served (serve router req st))
      /\ (req_method req = OPTIONS -> server FRONTEND_URL req st = Preflight 204)).
Proof.
  unfold server, corsOptions_origin.
  case_decide as Heq; cbn [andb].
  - case_bool_decide as Hm; repeat split; try done; intros; congruence.
  - repeat split; try done; intros; congruence.
Qed.

(** C10: a request without an [Origin] header passes the CORS check exactly
    when [FRONTEND_URL] is unset; when it is set, every such request is
    rejected. *)
Theorem no_origin_accepted_iff_unset (FRONTEND_URL : option string)
    (m : Method) (p : list string) (b : gmap string JValue) (st : Store) :
  (corsOptions_origin FRONTEND_URL None = callback_ok true <-> FRONTEND_URL = None)
  /\ (m <> OPTIONS ->
      (server FRONTEND_URL (mkRequest m p b None) st
       = Served (serve router (mkRequest m p b None) st) <-> FRONTEND_URL = None))
  /\ (server FRONTEND_URL (mkRequest m p b None) st <> Blocked "Error de CORS"
      <-> FRONTEND_URL = None)
  /\ (forall url, corsOptions_origin (Some url) None = callback_err "Error de CORS")
  /\ (forall url, server (Some url) (mkRequest m p b None) st = Blocked "Error de CORS").
Proof.
  unfold server, corsOptions_origin. cbn [req_origin req_method].
  destruct FRONTEND_URL as [url|].
  - rewrite decide_False by done. repeat split; try done; intros; try discriminate;
      try (by rewrite decide_False by done).
  - rewrite decide_True by done. cbn [andb].
    repeat split; try done; intros; try discriminate;
      try (by rewrite bool_decide_eq_false_2 by done);
      try (by rewrite decide_False by done).
    by case_bool_decide.
Qed.

(** ** More about the route table *)

(** X1: the router leaves a request to the framework's 404, with no
    validation chain and no handler run and the store as it was, exactly
    when its method and path are none of the pairs the router answers: the
    six registered ones, [HEAD] on the two [GET] routes and [OPTIONS] on
    the two paths. *)
Theorem unregistered_route_not_found (req : Request) (st : Store) :
  serve router req st = sent req (mkResult (mkResponse 404 BNoRoute) st [])
  <-> (req_method req, length (req_path req))
        ∉ [(GET, 0); (GET, 1); (HEAD, 0); (HEAD, 1); (POST, 0); (PUT, 1); (PATCH, 1);
           (DELETE, 1); (OPTIONS, 0); (OPTIONS, 1)].
Proof.
  destruct req as [m p b o]. cbn [req_method req_path]. split.
  - intros Heq Hin.
    assert (Htr := f_equal trace Heq). assert (Hst := f_equal (status ∘ response) Heq).
    cbn [compose] in Hst. rewrite trace_sent in Htr. rewrite status_sent in Hst.
    cbn [trace response status] in Htr, Hst. clear Heq. revert Htr Hst.
    destruct m, p as [|seg [|seg' p]];
      try (exfalso; cbn in Hin;
           repeat (apply elem_of_cons in Hin as [Hin|Hin]; [discriminate|]);
           by apply elem_of_nil in Hin);
      clear Hin; route_cases; rewrite ?trace_sent, ?status_sent, ?guarded_result_trace;
      try (intros _ Hst; discriminate);
      try (intros Htr _; by destruct (validation_errors _ _ _));
      destruct (call getProducts ∅ b st); intros Htr _; discriminate.
  - intros Hno. unfold serve. f_equal.
    destruct m, p as [|seg [|seg' p]];
      try (by apply dispatch_no_route);
      exfalso; apply Hno; cbn; set_solver.
Qed.

(** X3: which handler serves which request: a handler runs only for the
    method and the path shape it is registered under, the two [GET]
    handlers for [HEAD] as well. *)
Theorem handler_matches_route (req : Request) (st : Store) (h : Handler) :
  EvHandler h ∈ trace (serve router req st) ->
  (req_method req, length (req_path req), h)
    ∈ [(GET, 0, getProducts); (HEAD, 0, getProducts);
       (GET, 1, getProductById); (HEAD, 1, getProductById);
       (POST, 0, createProduct); (PUT, 1, updateProduct);
       (PATCH, 1, updateAvailability); (DELETE, 1, deleteProduct)].
Proof.
  destruct req as [m p b o].
  destruct m, p as [|seg [|seg' p]]; route_cases; rewrite ?trace_sent;
    cbn [req_method req_path length];
    try (cbn; intros Hin; by apply elem_of_nil in Hin);
    try (intros [-> _]%guarded_result_handler_iff; set_solver);
    destruct (call getProducts ∅ b st) as [r st']; cbn;
    intros Hin%list_elem_of_singleton; injection Hin as ->; set_solver.
Qed.

(** ** Which requests reach the handler *)

(** X5: on the routes that take only an [id] (get-by-id, patch-availability
    and delete) the handler is reached exactly when the [id] segment is an
    integer; the body of the request plays no part. *)
Theorem id_route_reaches_handler_iff (m : Method) (h : Handler) (seg : string)
    (b : gmap string JValue) (o : option string) (st : Store) :
  (m, h) ∈ [(GET, getProductById); (PATCH, updateAvailability); (DELETE, deleteProduct)] ->
  EvHandler h ∈ trace (serve router (mkRequest m [seg] b o) st)
  <-> validator_isInt seg = true.
Proof.
  intros Hmh.
  repeat (apply elem_of_cons in Hmh as [[= -> ->]|Hmh]);
    [rewrite serve_get_id|rewrite serve_patch|rewrite serve_delete|by apply elem_of_nil in Hmh];
    rewrite guarded_result_handler_iff, validation_errors_id; tauto.
Qed.

(** X6: a create request reaches [createProduct] exactly when every value
    the name rule checks ([name], or its elements when it is an array) has
    a string form that is not empty, every value the price rule checks has
    a numeric string form, and [price] is greater than 0; whether the
    store can be reached plays no part. *)
Theorem create_reaches_handler_iff (b : gmap string JValue) (o : option string)
    (st : Store) :
  EvHandler createProduct ∈ trace (serve router (mkRequest POST [] b o) st)
  <-> every_value not_empty (body_field b "name") = true
      /\ every_value validator_isNumeric (body_field b "price") = true
      /\ js_gt (body_field b "price") zero = true.
Proof.
  rewrite serve_post, guarded_result_handler_iff, validation_errors_nil.
  cbn [forallb]. rewrite chain_ok_name, chain_ok_price, andb_true_r.
  rewrite !andb_true_iff. split.
  - intros (_ & Hname & (Hnum & _) & Hpos). done.
  - intros (Hname & Hnum & Hpos). repeat split; try done.
    by apply every_numeric_not_empty.
Qed.

(** X7: a full update reaches [updateProduct] exactly when the [id]
    segment is an integer, every value the name rule checks is not empty,
    every value the price rule checks is numeric, [price] is greater than
    0, and every value the availability rule checks is one of the boolean
    spellings. *)
Theorem update_reaches_handler_iff (seg : string) (b : gmap string JValue)
    (o : option string) (st : Store) :
  EvHandler updateProduct ∈ trace (serve router (mkRequest PUT [seg] b o) st)
  <-> validator_isInt seg = true
      /\ every_value not_empty (body_field b "name") = true
      /\ every_value validator_isNumeric (body_field b "price") = true
      /\ js_gt (body_field b "price") zero = true
      /\ every_value validator_isBoolean (body_field b "availability") = true.
Proof.
  rewrite serve_put, guarded_result_handler_iff, validation_errors_nil.
  cbn [forallb].
  rewrite chain_ok_id, chain_ok_name, chain_ok_price, chain_ok_availability, andb_true_r.
  rewrite !andb_true_iff. split.
  - intros (_ & Hid & Hname & ((Hnum & _) & Hpos) & Hav). done.
  - intros (Hid & Hname & Hnum & Hpos & Hav). repeat split; try done.
    by apply every_numeric_not_empty.
Qed.

(** ** The price rule *)

(** X8: the custom check [value > 0] fails exactly when the price, read as
    a number, is at most 0 or is not a number at all. *)
Theorem price_check_fails_iff (v : JValue) :
  js_gt v zero = false <-> js_le v zero = true \/ ToNumber v = NaN.
Proof.
  unfold js_gt, js_le, zero.
  destruct (ToNumber v) as [| | |q]; cbn; try (split; [auto|done]).
  - split; [done|]. intros [H|H]; discriminate.
  - unfold Qltb, Qleb. cbn. rewrite Z.ltb_ge, Z.leb_le. split.
    + intros H. left. lia.
    + intros [H|H]; [lia|discriminate].
Qed.

Lemma run_chain_price params b :
  let v := body_field b "price" in
  run_chain price_rule params b =
  (price_error "Valor no admitido" <$> rejected validator_isNumeric v)
  ++ (price_error "Debes ingresar un precio de producto" <$> rejected not_empty v)
  ++ (if js_gt v zero then [] else [price_error "Valor no admitido" v]).
Proof.
  cbv zeta. unfold run_chain.
  cbn [price_rule chain_rules chain_location chain_field body notEmpty
    isNumeric custom withMessage add_validator set_last_message app
    rule_validator rule_message field_value run_rules failing_values].
  change (default JUndefined (b !! "price")) with (body_field b "price").
  rewrite app_nil_r. unfold price_error, not_empty.
  by destruct (js_gt (body_field b "price") zero).
Qed.

Lemma run_chain_name params b :
  run_chain name_rule params b =
  mkError "Debes ingresar un nombre de producto" "name" InBody
    <$> rejected not_empty (body_field b "name").
Proof.
  unfold run_chain.
  cbn [name_rule chain_rules chain_location chain_field body notEmpty
    withMessage add_validator set_last_message app
    rule_validator rule_message field_value run_rules failing_values].
  by rewrite app_nil_r.
Qed.

Lemma run_chain_availability params b :
  run_chain availability_rule params b =
  mkError "Valor de disponibilidad no válido" "availability" InBody
    <$> rejected validator_isBoolean (body_field b "availability").
Proof.
  unfold run_chain.
  cbn [availability_rule chain_rules chain_location chain_field body isBoolean
    withMessage add_validator set_last_message app
    rule_validator rule_message field_value run_rules failing_values].
  by rewrite app_nil_r.
Qed.

(** X9: a create request whose price is missing or [null] is answered 400
    with the three errors of the price rule, in the order of its
    validators (not numeric, required, not greater than 0), after the
    errors of the name rule if there are any. *)
Theorem missing_price_errors (b : gmap string JValue) (o : option string) (st : Store) :
  b !! "price" = None \/ b !! "price" = Some JNull ->
  let v := body_field b "price" in
  response (serve router (mkRequest POST [] b o) st) =
  mkResponse 400
    (BErrors (run_chain name_rule ∅ b ++
              [price_error "Valor no admitido" v;
               price_error "Debes ingresar un precio de producto" v;
               price_error "Valor no admitido" v])).
Proof.
  intros H. cbv zeta. rewrite serve_post. unfold guarded_result.
  change (validation_errors [name_rule; price_rule] ∅ b)
    with (run_chain name_rule ∅ b ++ run_chain price_rule ∅ b ++ []).
  rewrite app_nil_r, run_chain_price. unfold body_field at 1 2 3 4 5 6 7.
  generalize (run_chain name_rule ∅ b) as name_errors. intros name_errors.
  destruct H as [-> | ->]; cbn; by destruct name_errors.
Qed.

Lemma elem_of_rejected t v e :
  e ∈ rejected t v <-> e ∈ checked_values v /\ t (toString e) = false.
Proof.
  unfold rejected. rewrite !list_elem_of_In, filter_In, negb_true_iff. done.
Qed.

(** X10: the price rule reports "Debes ingresar un precio de producto" for
    a value exactly when that value is one the rule checks (the price, or
    an element of it when it is an array) and its string form is empty;
    such an error never comes first: an error of the numeric check is
    reported before it. *)
Theorem price_required_error_iff (params : gmap string string) (b : gmap string JValue) :
  let v := body_field b "price" in
  let required := price_error "Debes ingresar un precio de producto" in
  (forall e, required e ∈ run_chain price_rule params b
             <-> e ∈ checked_values v /\ validator_isEmpty (toString e) = true)
  /\ (forall e, required e ∈ run_chain price_rule params b ->
      exists e', run_chain price_rule params b !! 0%nat
                 = Some (price_error "Valor no admitido" e')).
Proof.
  cbv zeta. rewrite run_chain_price.
  assert (Hiff : forall e,
    price_error "Debes ingresar un precio de producto" e
      ∈ (price_error "Valor no admitido" <$> rejected validator_isNumeric (body_field b "price"))
        ++ (price_error "Debes ingresar un precio de producto"
              <$> rejected not_empty (body_field b "price"))
        ++ (if js_gt (body_field b "price") zero then []
            else [price_error "Valor no admitido" (body_field b "price")])
    <-> e ∈ checked_values (body_field b "price")
        /\ validator_isEmpty (toString e) = true).
  { intros e. rewrite !elem_of_app, !list_elem_of_fmap. split.
    - intros [(x & Hx & _)|[(x & Hx & Hin)|Hin]]; [discriminate| |].
      + injection Hx as ->. apply elem_of_rejected in Hin as [Hin Hemp].
        split; [done|]. unfold not_empty in Hemp. by apply negb_false_iff.
      + destruct (js_gt (body_field b "price") zero); [by apply elem_of_nil in Hin|].
        apply list_elem_of_singleton in Hin. discriminate.
    - intros [Hin Hemp]. right. left. exists e. split; [done|].
      apply elem_of_rejected. split; [done|]. unfold not_empty. by rewrite Hemp. }
  split; [exact Hiff|].
  intros e [Hin Hemp]%Hiff.
  assert (Hrej : e ∈ rejected validator_isNumeric (body_field b "price")).
  { apply elem_of_rejected. split; [done|].
    destruct (validator_isNumeric (toString e)) eqn:Hnum; [|done].
    by rewrite (numeric_not_empty _ Hnum) in Hemp. }
  destruct (rejected validator_isNumeric (body_field b "price")) as [|e' l];
    [by apply elem_of_nil in Hrej|].
  by exists e'.
Qed.

Lemma err_param_run_rules l f x rs :
  err_param <$> run_rules l f x rs = replicate (length (run_rules l f x rs)) f.
Proof.
  induction rs as [|r rs IH]; [done|]. cbn [run_rules].
  rewrite fmap_app, length_app, replicate_add, IH. f_equal.
  induction (failing_values (rule_validator r) x) as [|e es IHe]; [done|].
  cbn. by rewrite IHe.
Qed.

Lemma err_param_run_chain c params b :
  err_param <$> run_chain c params b
  = replicate (length (run_chain c params b)) (chain_field c).
Proof. apply err_param_run_rules. Qed.

(** X11: a full update either reaches its handler or is answered 400 with
    at least one error, and the errors come field by field in the order
    the rules are registered: at most one for the id, then those of the
    name, of the price and of the availability. *)
Theorem update_errors_in_field_order (seg : string) (b : gmap string JValue)
    (o : option string) (st : Store) :
  let r := serve router (mkRequest PUT [seg] b o) st in
  EvHandler updateProduct ∈ trace r
  \/ exists errs i n p a,
       response r = mkResponse 400 (BErrors errs)
       /\ errs <> []
       /\ i <= 1
       /\ err_param <$> errs
          = replicate i "id" ++ replicate n "name" ++ replicate p "price"
            ++ replicate a "availability".
Proof.
  cbv zeta. rewrite serve_put, guarded_result_handler_iff. unfold guarded_result.
  destruct (validation_errors [id_rule; name_rule; price_rule; availability_rule]
              {["id" := seg]} b) as [|e es] eqn:Herrs; [by left|].
  right. rewrite <- Herrs.
  exists (validation_errors [id_rule; name_rule; price_rule; availability_rule]
            {["id" := seg]} b),
    (length (run_chain id_rule {["id" := seg]} b)),
    (length (run_chain name_rule {["id" := seg]} b)),
    (length (run_chain price_rule {["id" := seg]} b)),
    (length (run_chain availability_rule {["id" := seg]} b)).
  split; [by rewrite Herrs|]. split; [by rewrite Herrs|]. split.
  - rewrite run_chain_id. destruct (validator_isInt seg); cbn; lia.
  - change (validation_errors [id_rule; name_rule; price_rule; availability_rule]
              {["id" := seg]} b)
      with (run_chain id_rule {["id" := seg]} b ++ run_chain name_rule {["id" := seg]} b
            ++ run_chain price_rule {["id" := seg]} b
            ++ run_chain availability_rule {["id" := seg]} b ++ []).
    rewrite app_nil_r, !fmap_app, !err_param_run_chain. reflexivity.
Qed.

(** ** More about the CORS check *)

Lemma length_append (s t : string) :
  String.length (String.append s t) = String.length s + String.length t.
Proof. induction s as [|c s IH]; simpl; [done|]. by f_equal. Qed.

Lemma append_neq (s t : string) : t <> "" -> String.append s t <> s.
Proof.
  intros Ht Heq. apply (f_equal String.length) in Heq.
  rewrite length_append in Heq. destruct t; [done|]. simpl in Heq. lia.
Qed.

(** X12: the origin is compared as a whole: an origin that only begins
    with [FRONTEND_URL], and a [FRONTEND_URL] that only begins with the
    origin (a trailing slash, say), are rejected. *)
Theorem cors_rejects_extensions (url extra : string) :
  extra <> "" ->
  corsOptions_origin (Some url) (Some (String.append url extra))
    = callback_err "Error de CORS"
  /\ corsOptions_origin (Some (String.append url extra)) (Some url)
    = callback_err "Error de CORS".
Proof.
  intros Hextra. pose proof (append_neq url extra Hextra) as Hne.
  unfold corsOptions_origin. split; case_decide as Heq; try done;
    injection Heq as Heq; congruence.
Qed.

(** X13: one configuration accepts one origin: two requests that both pass
    the CORS check under the same [FRONTEND_URL] carry the same origin. *)
Theorem cors_accepts_one_origin (FRONTEND_URL o1 o2 : option string) (allow1 allow2 : bool) :
  corsOptions_origin FRONTEND_URL o1 = callback_ok allow1 ->
  corsOptions_origin FRONTEND_URL o2 = callback_ok allow2 ->
  o1 = o2 /\ allow1 = true /\ allow2 = true.
Proof.
  unfold corsOptions_origin. repeat case_decide; try discriminate.
  intros [= <-] [= <-]. split; [congruence|done].
Qed.

(** ** Order of registration *)

Lemma dispatch_answers l req errs st tr :
  req_method req <> OPTIONS ->
  (forall r, r ∈ l -> answers r) ->
  dispatch l req errs st tr [] =
  default (mkResult (mkResponse 404 BNoRoute) st tr)
          (head (omap (fun r => route_result r req errs st tr) l)).
Proof.
  intros Hm. induction l as [|r l IH]; intros Hall; [done|].
  assert (IH' := IH (fun r' Hr' => Hall r' (list_elem_of_further _ _ _ Hr'))).
  cbn [dispatch omap list_omap]. unfold route_result at 1.
  destruct (match_path (route_path r) (req_path req)) as [params|]; [|exact IH'].
  cbn [mbind option_bind].
  destruct (handles r (req_method req)).
  - destruct (Hall r (list_elem_of_here _ _) params (req_body req) errs st tr)
      as [res Hres].
    by rewrite Hres.
  - rewrite decide_False by done. exact IH'.
Qed.

Lemma dispatch_options l req errs st tr allow :
  req_method req = OPTIONS ->
  (forall r, r ∈ l -> handles r OPTIONS = false) ->
  dispatch l req errs st tr allow = unanswered (allowed l (req_path req) allow) st tr.
Proof.
  intros Hm. revert allow. induction l as [|r l IH]; intros allow Hall; [done|].
  assert (IH' := fun a => IH a (fun r' Hr' => Hall r' (list_elem_of_further _ _ _ Hr'))).
  cbn [dispatch allowed foldl].
  destruct (match_path (route_path r) (req_path req)) as [params|]; [|apply IH'].
  rewrite Hm, (Hall r (list_elem_of_here _ _)), decide_True by done. apply IH'.
Qed.

Lemma allowed_spec l p allow :
  (forall m, m ∈ allowed l p allow
             <-> m ∈ allow
                 \/ exists r, r ∈ l /\ is_Some (match_path (route_path r) p)
                              /\ m ∈ route_options r)
  /\ (NoDup allow -> NoDup (allowed l p allow)).
Proof.
  unfold allowed. revert allow. induction l as [|r l IH]; intros allow; cbn [foldl].
  - split; [|done]. intros m. split; [by left|].
    intros [H|(r & Hr & _)]; [done|by apply elem_of_nil in Hr].
  - destruct (match_path (route_path r) p) as [params|] eqn:Hp.
    + destruct (IH (append_methods allow (route_options r))) as [Hin Hnd].
      destruct (append_methods_spec (route_options r) allow) as [Hin' Hnd'].
      split; [|by intros H; apply Hnd, Hnd'].
      intros m. rewrite Hin, Hin'. split.
      * intros [[H|H]|(r' & Hr' & Hs & Hm)]; [by left| |].
        -- right. exists r. rewrite Hp. repeat split; [left|done|done].
        -- right. exists r'. repeat split; [by right|done|done].
      * intros [H|(r' & Hr' & Hs & Hm)]; [by left; left|].
        apply elem_of_cons in Hr' as [->|Hr']; [by left; right|].
        right. by exists r'.
    + destruct (IH allow) as [Hin Hnd]. split; [|done].
      intros m. rewrite Hin. split.
      * intros [H|(r' & Hr' & Hs & Hm)]; [by left|].
        right. exists r'. repeat split; [by right|done|done].
      * intros [H|(r' & Hr' & Hs & Hm)]; [by left|].
        apply elem_of_cons in Hr' as [->|Hr'].
        -- rewrite Hp in Hs. by destruct Hs.
        -- right. by exists r'.
Qed.

Lemma allowed_Permutation l l' p :
  l ≡ₚ l' -> allowed l p [] ≡ₚ allowed l' p [].
Proof.
  intros Hperm. apply NoDup_Permutation.
  - apply allowed_spec, NoDup_nil_2.
  - apply allowed_spec, NoDup_nil_2.
  - intros m. rewrite !(proj1 (allowed_spec _ _ _)).
    split; (intros [H|(r & Hr & Hs)]; [by left|]; right; exists r; split; [|done]).
    + by rewrite <- Hperm.
    + by rewrite Hperm.
Qed.

Lemma router_answers r : r ∈ router -> answers r.
Proof.
  intros Hr params b errs st tr. unfold router in Hr.
  repeat (apply elem_of_cons in Hr as [->|Hr]); try (by apply elem_of_nil in Hr);
    try (cbn [route_stack run_stack]; destruct (call getProducts params b st); by eexists).
  - apply (guarded_answers [id_rule] getProductById).
  - apply (guarded_answers [name_rule; price_rule] createProduct).
  - apply (guarded_answers [id_rule; name_rule; price_rule; availability_rule] updateProduct).
  - apply (guarded_answers [id_rule] updateAvailability).
  - apply (guarded_answers [id_rule] updateAvailability).
  - apply (guarded_answers [id_rule] deleteProduct).
Qed.

Lemma router_no_options r : r ∈ router -> handles r OPTIONS = false.
Proof.
  unfold router. intros Hr.
  repeat (apply elem_of_cons in Hr as [->|Hr]); try (by apply elem_of_nil in Hr);
    reflexivity.
Qed.

Lemma match_path_same pat pat' p params params' :
  match_path pat p = Some params -> match_path pat' p = Some params' -> pat = pat'.
Proof. destruct pat, pat', p as [|seg [|seg' p]]; cbn; congruence. Qed.

(** Two routes of the table that serve the same method on the same path
    are one and the same route. *)
Lemma router_routes_distinct r r' m :
  r ∈ router -> r' ∈ router ->
  handles r m = true -> handles r' m = true ->
  route_path r = route_path r' -> r = r'.
Proof.
  unfold router. intros Hr Hr'.
  repeat (apply elem_of_cons in Hr as [->|Hr]); try (by apply elem_of_nil in Hr);
    repeat (apply elem_of_cons in Hr' as [->|Hr']); try (by apply elem_of_nil in Hr');
    destruct m; cbn; intros; try discriminate; reflexivity.
Qed.

Lemma router_results_agree req errs st tr r r' x y :
  r ∈ router -> r' ∈ router ->
  route_result r req errs st tr = Some x ->
  route_result r' req errs st tr = Some y -> x = y.
Proof.
  intros Hr Hr' Hx Hy. unfold route_result in *.
  destruct (match_path (route_path r) (req_path req)) as [params|] eqn:Hp; [|done].
  destruct (match_path (route_path r') (req_path req)) as [params'|] eqn:Hp'; [|done].
  cbn [mbind option_bind] in Hx, Hy.
  destruct (handles r (req_method req)) eqn:Hm; [|done].
  destruct (handles r' (req_method req)) eqn:Hm'; [|done].
  assert (r = r') as <-.
  { eapply router_routes_distinct; [done..|by eapply match_path_same]. }
  rewrite Hp in Hp'. injection Hp' as <-.
  destruct (run_stack (route_stack r) params (req_body req) errs st tr); congruence.
Qed.

Lemma head_Permutation_agree {A} (l l' : list A) :
  l ≡ₚ l' -> (forall x y, x ∈ l -> y ∈ l -> x = y) -> head l = head l'.
Proof.
  intros Hperm Hagree.
  destruct l as [|x k], l' as [|y k']; [done| | |].
  - by apply Permutation_nil_l in Hperm.
  - by apply Permutation_nil_r in Hperm.
  - cbn. f_equal. apply Hagree; [left|]. rewrite Hperm. left.
Qed.

Lemma same_but_allow_order_refl r : same_but_allow_order r r.
Proof.
  unfold same_but_allow_order. repeat split. by destruct (payload (response r)).
Qed.

(** X14: the order in which the routes are registered plays no part: the
    routes of the table, registered in any other order, answer every
    request as the table does.  Only the router's own answer to an
    [OPTIONS] request names the methods in the order of registration. *)
Theorem registration_order_irrelevant (routes : list Route) (req : Request) (st : Store) :
  routes ≡ₚ router ->
  (req_method req <> OPTIONS -> serve routes req st = serve router req st)
  /\ same_but_allow_order (serve routes req st) (serve router req st).
Proof.
  intros Hperm.
  assert (Heq : req_method req <> OPTIONS -> serve routes req st = serve router req st).
  { intros Hm. unfold serve. f_equal. rewrite !dispatch_answers; try done.
    - f_equal. symmetry. apply head_Permutation_agree.
      + by rewrite Hperm.
      + intros x y (r & Hr & Hx)%list_elem_of_omap (r' & Hr' & Hy)%list_elem_of_omap.
        exact (router_results_agree _ _ _ _ _ _ _ _ Hr Hr' Hx Hy).
    - apply router_answers.
    - intros r Hr. apply router_answers. by rewrite <- Hperm. }
  split; [exact Heq|].
  destruct (decide (req_method req = OPTIONS)) as [Hm|Hm].
  - unfold serve. rewrite !sent_not_head by (rewrite Hm; discriminate).
    rewrite !dispatch_options; try done.
    + pose proof (allowed_Permutation _ _ (req_path req) Hperm) as Hallow.
      unfold same_but_allow_order, unanswered.
      destruct (allowed routes (req_path req) []) as [|m ms],
        (allowed router (req_path req) []) as [|m' ms']; cbn; try done.
      * by apply Permutation_nil_l in Hallow.
      * by apply Permutation_nil_r in Hallow.
    + apply router_no_options.
    + intros r Hr. apply router_no_options. by rewrite <- Hperm.
  - rewrite (Heq Hm). apply same_but_allow_order_refl.
Qed.
End Server.

(** ** The statements at concrete requests *)

Lemma non_integer_id_rejected_witness :
  In PATCH [GET; HEAD; PUT; PATCH; DELETE]
  /\ validator_isInt "abc" = false
  /\ let r := serve integer_runtime (router integer_runtime)
                (mkRequest PATCH ["abc"] ∅ None) (mkStore ∅ 1 true) in
     status (response r) = 400 /\ store r = mkStore ∅ 1 true
     /\ forall h, EvHandler h ∉ trace r.
Proof.
  split; [simpl; tauto|]. split; [reflexivity|].
  apply (non_integer_id_rejected integer_runtime PATCH "abc" ∅ None (mkStore ∅ 1 true));
    [simpl; tauto|reflexivity].
Defined.



Lemma incomplete_update_rejected_witness :
  let b : gmap string JValue := {["name" := JStr "Monitor"; "price" := JNum (Fin 300)]} in
  b !! "availability" = None
  /\ let r := serve integer_runtime (router integer_runtime)
                (mkRequest PUT ["1"] b None) (mkStore ∅ 1 true) in
     status (response r) = 400 /\ store r = mkStore ∅ 1 true
     /\ forall h, EvHandler h ∉ trace r.
Proof.
  cbv zeta. split; [reflexivity|].
  apply (incomplete_update_rejected integer_runtime "1"
           {["name" := JStr "Monitor"; "price" := JNum (Fin 300)]} None (mkStore ∅ 1 true)).
  right. right. reflexivity.
Defined.



Lemma absent_id_not_found_witness :
  let st := mkStore ∅ 1 true in
  let params : gmap string string := {["id" := "9999"]} in
  In deleteProduct [getProductById; updateProduct; updateAvailability; deleteProduct]
  /\ params !! "id" ≫= primary_key = Some 9999%Z
  /\ rows st !! 9999%Z = None
  /\ (call integer_runtime deleteProduct params ∅ st).2 = st
  /\ (connected st = true ->
      (call integer_runtime deleteProduct params ∅ st).1 = mkResponse 404 BNotFound)
  /\ (connected st = false ->
      (call integer_runtime deleteProduct params ∅ st).1 = mkResponse 500 BServerError).
Proof.
  cbv zeta. split; [simpl; tauto|]. do 2 (split; [reflexivity|]).
  apply (absent_id_not_found integer_runtime deleteProduct {["id" := "9999"]} ∅
           (mkStore ∅ 1 true) 9999); [simpl; tauto|reflexivity..].
Defined.

(** With a store that cannot be reached an [id] that is not in it is
    answered 500, not 404. *)
Lemma absent_id_store_unreachable :
  let st := (connectDB StoreError (mkStore ∅ 1 true)).1 in
  ({["id" := "9999"]} : gmap string string) !! "id" ≫= primary_key = Some 9999%Z
  /\ rows st !! 9999%Z = None
  /\ call integer_runtime getProductById {["id" := "9999"]} ∅ st
     = (mkResponse 500 BServerError, st)
  /\ serve integer_runtime (router integer_runtime) (mkRequest GET ["9999"] ∅ None) st
     = mkResult (mkResponse 500 BServerError) st
         [EvValidate InParams "id"; EvInputErrors true; EvHandler getProductById].
Proof. cbv zeta. repeat split. Qed.



Lemma handlers_after_validation_witness :
  let req := mkRequest GET ["1"] ∅ None in
  let st := mkStore ∅ 1 true in
  getProductById <> getProducts
  /\ after_validation
       (trace (serve integer_runtime (router integer_runtime) req st)) getProductById.
Proof.
  cbv zeta. split; [discriminate|].
  apply (handlers_after_validation integer_runtime
           (mkRequest GET ["1"] ∅ None) (mkStore ∅ 1 true) getProductById).
  discriminate.
Defined.

(** The list route runs its handler and nothing before it. *)
Lemma list_handler_without_validation :
  let req := mkRequest GET [] ∅ None in
  let st := mkStore ∅ 1 true in
  trace (serve integer_runtime (router integer_runtime) req st) = [EvHandler getProducts]
  /\ ~ after_validation
         (trace (serve integer_runtime (router integer_runtime) req st)) getProducts.
Proof.
  cbv zeta. split; [reflexivity|].
  intros H. specialize (H [] [] eq_refl). by apply elem_of_nil in H.
Qed.

(** An [OPTIONS] request from the configured origin passes the CORS check
    and is answered by [cors] itself with 204; it is not handed on to the
    router, which would have answered it 200 with the methods of the
    path. *)
Lemma preflight_not_handed_on :
  let url := Some "http://localhost:5173" in
  let req := mkRequest OPTIONS [] ∅ url in
  let st := mkStore ∅ 1 true in
  req_origin req = url
  /\ corsOptions_origin url (req_origin req) = callback_ok true
  /\ server integer_runtime url req st = Preflight 204
  /\ server integer_runtime url req st
     <> Served (serve integer_runtime (router integer_runtime) req st)
  /\ serve integer_runtime (router integer_runtime) req st
     = mkResult (mkResponse 200 (BAllow [GET; HEAD; POST])) st [].
Proof. cbv zeta. repeat split. discriminate. Qed.

(** ** Further statements at concrete requests *)

Lemma handler_matches_route_witness :
  let req := mkRequest HEAD ["1"] ∅ None in
  let st := mkStore ∅ 1 true in
  EvHandler getProductById ∈ trace (serve integer_runtime (router integer_runtime) req st)
  /\ (HEAD, 1, getProductById)
       ∈ [(GET, 0, getProducts); (HEAD, 0, getProducts);
          (GET, 1, getProductById); (HEAD, 1, getProductById);
          (POST, 0, createProduct); (PUT, 1, updateProduct);
          (PATCH, 1, updateAvailability); (DELETE, 1, deleteProduct)].
Proof.
  cbv zeta.
  assert (H : EvHandler getProductById
                ∈ trace (serve integer_runtime (router integer_runtime)
                           (mkRequest HEAD ["1"] ∅ None) (mkStore ∅ 1 true))).
  { change (EvHandler getProductById
              ∈ [EvValidate InParams "id"; EvInputErrors true; EvHandler getProductById]).
    do 2 right. left. }
  split; [exact H|].
  exact (handler_matches_route integer_runtime
           (mkRequest HEAD ["1"] ∅ None) (mkStore ∅ 1 true) getProductById H).
Defined.

Lemma id_route_reaches_handler_iff_witness :
  (PATCH, updateAvailability)
    ∈ [(GET, getProductById); (PATCH, updateAvailability); (DELETE, deleteProduct)]
  /\ (EvHandler updateAvailability
        ∈ trace (serve integer_runtime (router integer_runtime)
                   (mkRequest PATCH ["12"] {["name" := JNull]} None) (mkStore ∅ 1 true))
      <-> validator_isInt "12" = true).
Proof.
  assert (H : (PATCH, updateAvailability)
                ∈ [(GET, getProductById); (PATCH, updateAvailability);
                   (DELETE, deleteProduct)]) by (right; left).
  split; [exact H|].
  exact (id_route_reaches_handler_iff integer_runtime PATCH updateAvailability "12"
           {["name" := JNull]} None (mkStore ∅ 1 true) H).
Defined.

Lemma missing_price_errors_witness :
  let b : gmap string JValue := {["name" := JStr "Monitor"]} in
  b !! "price" = None
  /\ response (serve integer_runtime (router integer_runtime)
                 (mkRequest POST [] b None) (mkStore ∅ 1 true))
     = mkResponse 400
         (BErrors [price_error "Valor no admitido" JUndefined;
                   price_error "Debes ingresar un precio de producto" JUndefined;
                   price_error "Valor no admitido" JUndefined]).
Proof.
  cbv zeta. split; [reflexivity|].
  exact (missing_price_errors integer_runtime {["name" := JStr "Monitor"]} None
           (mkStore ∅ 1 true) (or_introl eq_refl)).
Defined.

Lemma cors_rejects_extensions_witness :
  "/" <> ""
  /\ corsOptions_origin (Some "http://localhost:5173") (Some "http://localhost:5173/")
     = callback_err "Error de CORS"
  /\ corsOptions_origin (Some "http://localhost:5173/") (Some "http://localhost:5173")
     = callback_err "Error de CORS".
Proof.
  assert (H : "/" <> "") by discriminate.
  split; [exact H|].
  exact (cors_rejects_extensions "http://localhost:5173" "/" H).
Defined.

Lemma cors_accepts_one_origin_witness :
  let url := Some "http://localhost:5173" in
  corsOptions_origin url url = callback_ok true
  /\ corsOptions_origin url url = callback_ok true
  /\ (url = url /\ true = true /\ true = true).
Proof.
  cbv zeta. do 2 (split; [reflexivity|]).
  exact (cors_accepts_one_origin (Some "http://localhost:5173")
           (Some "http://localhost:5173") (Some "http://localhost:5173") true true
           eq_refl eq_refl).
Defined.

Lemma registration_order_irrelevant_witness :
  let req := mkRequest OPTIONS ["1"] ∅ None in
  let st := mkStore {[1%Z := mkProduct 1 (JStr "Monitor") (JNum (Fin 300)) false]} 2 true in
  reverse (router integer_runtime) ≡ₚ router integer_runtime
  /\ (req_method req <> OPTIONS ->
      serve integer_runtime (reverse (router integer_runtime)) req st
      = serve integer_runtime (router integer_runtime) req st)
  /\ same_but_allow_order
       (serve integer_runtime (reverse (router integer_runtime)) req st)
       (serve integer_runtime (router integer_runtime) req st).
Proof.
  cbv zeta.
  assert (H : reverse (router integer_runtime) ≡ₚ router integer_runtime)
    by apply reverse_Permutation.
  split; [exact H|].
  exact (registration_order_irrelevant integer_runtime _ _ _ H).
Defined.

(** ** The scenarios of the specification *)

Example scenario_get_missing_product :
  response (serve integer_runtime (router integer_runtime)
              (mkRequest GET ["9999"] ∅ None) (mkStore ∅ 1 true))
  = mkResponse 404 BNotFound.
Proof. reflexivity. Qed.

Example scenario_patch_unavailable_product :
  let row := mkProduct 1 (JStr "Monitor") (JNum (Fin 300)) false in
  response (serve integer_runtime (router integer_runtime)
              (mkRequest PATCH ["1"] ∅ None) (mkStore {[1%Z := row]} 2 true))
  = mkResponse 200 (BProduct (mkProduct 1 (JStr "Monitor") (JNum (Fin 300)) true)).
Proof. reflexivity. Qed.

Example scenario_foreign_origin_blocked :
  server integer_runtime (Some "http://localhost:5173")
    (mkRequest GET [] ∅ (Some "http://example.org")) (mkStore ∅ 1 true)
  = Blocked "Error de CORS".
Proof. reflexivity. Qed.

Example scenario_non_numeric_price :
  let b : gmap string JValue := {["name" := JStr "Monitor"; "price" := JStr "abc"]} in
  response (serve integer_runtime (router integer_runtime)
              (mkRequest POST [] b None) (mkStore ∅ 1 true))
  = mkResponse 400
      (BErrors [mkError "Valor no admitido" "price" InBody (JStr "abc");
                mkError "Valor no admitido" "price" InBody (JStr "abc")]).
Proof. reflexivity. Qed.

(** ** Requests the specification does not mention *)

(** [HEAD] on a product is served by the get-by-id route, without a body. *)
Example head_served_by_get_route :
  serve integer_runtime (router integer_runtime)
    (mkRequest HEAD ["9999"] ∅ None) (mkStore ∅ 1 true)
  = mkResult (mkResponse 404 BEmpty) (mkStore ∅ 1 true)
      [EvValidate InParams "id"; EvInputErrors true; EvHandler getProductById].
Proof. reflexivity. Qed.

(** An [OPTIONS] request the router answers itself, in the order of
    registration; with the routes registered in the reverse order the
    methods come in another order. *)
Example options_answered_by_router :
  response (serve integer_runtime (router integer_runtime)
              (mkRequest OPTIONS ["1"] ∅ None) (mkStore ∅ 1 true))
  = mkResponse 200 (BAllow [GET; HEAD; PUT; PATCH; DELETE])
  /\ response (serve integer_runtime (reverse (router integer_runtime))
                 (mkRequest OPTIONS ["1"] ∅ None) (mkStore ∅ 1 true))
     = mkResponse 200 (BAllow [DELETE; PATCH; PUT; GET; HEAD]).
Proof. split; reflexivity. Qed.

(** A price given as an array: the validators run on its elements, the
    custom check on the array itself. *)
Example array_price_checked_by_element :
  let b : gmap string JValue :=
    {["name" := JStr "Monitor"; "price" := JArr [JNum (Fin 5); JStr "abc"; JStr ""]]} in
  response (serve integer_runtime (router integer_runtime)
              (mkRequest POST [] b None) (mkStore ∅ 1 true))
  = mkResponse 400
      (BErrors [price_error "Valor no admitido" (JStr "abc");
                price_error "Valor no admitido" (JStr "");
                price_error "Debes ingresar un precio de producto" (JStr "");
                price_error "Valor no admitido"
                  (JArr [JNum (Fin 5); JStr "abc"; JStr ""])]).
Proof. reflexivity. Qed.

(** The store gives a new product an [id] that is not in use, also when
    the counter has fallen behind the rows. *)
Example create_skips_ids_in_use :
  let row := mkProduct 7 (JStr "Monitor") (JNum (Fin 300)) true in
  let b : gmap string JValue := {["name" := JStr "Teclado"; "price" := JNum (Fin 50)]} in
  response (serve integer_runtime (router integer_runtime)
              (mkRequest POST [] b None) (mkStore {[7%Z := row]} 1 true))
  = mkResponse 201 (BProduct (mkProduct 8 (JStr "Teclado") (JNum (Fin 50)) true)).
Proof. reflexivity. Qed.
